(** * OpenSeaBot: the per-address resolution loop of [OpenSeaBot.py]

    A shallow embedding of [OpenSeaBot.get_settings], [get_driver], [finish],
    [wait_until_visible], [get_address_details] and [main].  Everything the
    program asks of the outside (Chrome, the rendered pages, the clock, the
    disk) is answered by an oracle of type [World]; the program's own control
    flow (which call is guarded by which [try], where the loop [continue]s,
    what is written to [Valid.csv]) is transcribed statement by statement. *)

From Stdlib Require Import Ascii String.
From stdpp Require Import base option list strings gmap.

Local Open Scope string_scope.
Local Open Scope list_scope.

(** ** Python strings *)

Module PyStr.

(** [s.startswith(p)] *)
Fixpoint startswith (p s : string) : bool :=
  match p, s with
  | EmptyString, _ => true
  | String a p', String b s' => if Ascii.eqb a b then startswith p' s' else false
  | String _ _, EmptyString => false
  end.

(** [needle in hay] on two [str] values. *)
Fixpoint contains (needle hay : string) : bool :=
  startswith needle hay ||
  match hay with
  | EmptyString => false
  | String _ hay' => contains needle hay'
  end.

(** [s.split(sep)] for a one-character separator: every occurrence of the
    separator cuts, empty pieces are kept, the result is never empty. *)
Fixpoint split (sep : ascii) (s : string) : list string :=
  match s with
  | EmptyString => [EmptyString]
  | String a s' =>
      if Ascii.eqb a sep then EmptyString :: split sep s'
      else match split sep s' with
           | piece :: rest => String a piece :: rest
           | [] => [String a EmptyString]
           end
  end.

(** [s.replace(c, '')] for a one-character [c]. *)
Fixpoint remove_char (c : ascii) (s : string) : string :=
  match s with
  | EmptyString => EmptyString
  | String a s' => if Ascii.eqb a c then remove_char c s' else String a (remove_char c s')
  end.

(** Truthiness of an optional [str] argument: [None] and [''] are falsy. *)
Definition truthy (o : option string) : bool :=
  match o with
  | Some (String _ _) => true
  | _ => false
  end.

(** [c] does not occur in [s]. *)
Fixpoint free_of (c : ascii) (s : string) : Prop :=
  match s with
  | EmptyString => True
  | String a s' => a <> c /\ free_of c s'
  end.

End PyStr.

(** ** Exceptions, events and the outside world *)

(** The exceptions that can surface.  [TimeoutException] and
    [NoSuchElementException] are subclasses of selenium's
    [WebDriverException]. *)
Inductive exn :=
| TimeoutException
| NoSuchElementException
| WebDriverException
| OSError
| IndexError
| KeyError (key : string)
| TypeError
| KeyboardInterrupt.

Definition is_WebDriverException (e : exn) : bool :=
  match e with
  | TimeoutException | NoSuchElementException | WebDriverException => true
  | _ => false
  end.

(** What a call into a library answers. *)
Inductive outcome (A : Type) :=
| Returns (a : A)
| Raises (e : exn).
Arguments Returns {A} a.
Arguments Raises {A} e.

Definition is_ok {A} (o : outcome A) : bool :=
  match o with Returns _ => true | Raises _ => false end.

(** [selenium.webdriver.common.by.By] *)
Inductive By := CSS_SELECTOR | ID | NAME | CLASS_NAME | TAG_NAME.

(** A driver handle: the ordinal of the [webdriver.Chrome] call that made it. *)
Definition Driver := nat.

(** The [stats] dict of [get_address_details], keys in insertion order. *)
Record Stats := {
  TodaysDate : string;
  ScanAddress : string;
  CollectionName : string;
  Collection : string;
  AssetNumber : string;
  BestOffer : string;
  Premium : string
}.

(** [DataFrame([stats]).columns] and the single row of that frame. *)
Definition columns : list string :=
  ["TodaysDate"; "ScanAddress"; "CollectionName"; "Collection"; "AssetNumber"; "BestOffer"; "Premium"].

Definition row_of (stats : Stats) : list string :=
  [TodaysDate stats; ScanAddress stats; CollectionName stats; Collection stats;
   AssetNumber stats; BestOffer stats; Premium stats].

(** [to_csv]'s [mode] argument. *)
Inductive Mode := ModeW | ModeA.

(** Log lines ([self.LOGGER.info]); the f-strings are kept as their arguments. *)
Inductive Msg :=
| MsgLaunched
| MsgProxySelected (proxy : string)
| MsgScraping (i : nat) (address final_url : string)
| MsgWaitingOpenSea
| MsgNoCollection
| MsgWaitingStats
| MsgStats (stats : Stats)
| MsgSaved
| MsgClosing
| MsgIssueClosing (e : exn).

(** Calls that leave the program. *)
Inductive Call :=
| CallChrome (user_agent : string) (proxy : option string) (headless : bool)
| CallGet (driver : Driver) (url : string)
| CallWait (driver : Driver) (by_ : By) (value : string) (duration : Z)
| CallFind (driver : Driver) (by_ : By) (value : string)
| CallToCsv (mode : Mode) (header : bool) (stats : Stats)
| CallClose (driver : Driver)
| CallQuit (driver : Driver)
| CallReadCsv.

Inductive Event :=
| Info (m : Msg)
| Ext (c : Call).

(** What the outside answers during one pass of the loop of
    [get_address_details]: the two resource files and [random.choice], Chrome,
    the pages it renders, the clock and the disk under [Valid.csv]. *)
Record World := {
  choose_user_agent : outcome string;
  choose_proxy : outcome string;
  start_chrome : outcome unit;
  load : string -> outcome unit;
  until_visible : By -> string -> Z -> outcome unit;
  element_text : By -> string -> outcome string;
  element_href : By -> string -> outcome string;
  strftime_now : string;
  write_csv : outcome unit;
  close_window : outcome unit;
  quit_chrome : outcome unit
}.

(** What the outside answers during a whole process run. *)
Record Outside := {
  world : nat -> World;
  read_addresses : outcome (list string)
}.

(** ** Program state *)

(** [Settings.json] as the two-level dict the program reads from it. *)
Abbreviation Settings := (gmap string (gmap string Z)).

(** The two files the program writes, and the drivers it started and has
    not quit. [None] is a file that does not exist; [Valid.csv] is held as
    its CSV records. *)
Record State := {
  file_settings : option Settings;
  file_valid : option (list (list string));
  sessions : list Driver;
  started : nat
}.

Definition set_file_settings (f : option Settings) (st : State) : State :=
  {| file_settings := f; file_valid := file_valid st; sessions := sessions st; started := started st |}.

Definition set_file_valid (f : option (list (list string))) (st : State) : State :=
  {| file_settings := file_settings st; file_valid := f; sessions := sessions st; started := started st |}.

Definition open_session (st : State) : State :=
  {| file_settings := file_settings st; file_valid := file_valid st;
     sessions := sessions st ++ [started st]; started := S (started st) |}.

Definition drop_session (driver : Driver) (st : State) : State :=
  {| file_settings := file_settings st; file_valid := file_valid st;
     sessions := filter (λ d, d ≠ driver) (sessions st); started := started st |}.

(** ** Control flow: normal return, [continue], or a raised exception *)

Inductive Res (A : Type) :=
| Ret (a : A)
| Continue
| Raise (e : exn).
Arguments Ret {A} a.
Arguments Continue {A}.
Arguments Raise {A} e.

(** The result of running a piece of the program: how it ended, the state it
    left and the events it produced, oldest first. *)
Record Ran (A : Type) := ran {
  result : Res A;
  after : State;
  events : list Event
}.
Arguments ran {A} result after events.
Arguments result {A} r.
Arguments after {A} r.
Arguments events {A} r.

Definition M (A : Type) : Type := State -> Ran A.

#[global] Instance M_ret : MRet M := λ A a st, ran (Ret a) st [].

#[global] Instance M_bind : MBind M := λ A B f m st,
  match m st with
  | ran (Ret a) st' evs =>
      match f a st' with
      | ran res st'' evs' => ran res st'' (evs ++ evs')
      end
  | ran Continue st' evs => ran Continue st' evs
  | ran (Raise e) st' evs => ran (Raise e) st' evs
  end.

Definition raise {A} (e : exn) : M A := λ st, ran (Raise e) st [].

Definition continue_ {A} : M A := λ st, ran Continue st [].

Definition emit (ev : Event) : M unit := λ st, ran (Ret tt) st [ev].

Definition modify (f : State -> State) : M unit := λ st, ran (Ret tt) (f st) [].

Definition gets {A} (f : State -> A) : M A := λ st, ran (Ret (f st)) st [].

(** [try: body / except ...: handler]; a [continue] in [body] is not caught. *)
Definition try_except {A} (body : M A) (handler : exn -> M A) : M A := λ st,
  match body st with
  | ran (Raise e) st' evs =>
      match handler e st' with
      | ran res st'' evs' => ran res st'' (evs ++ evs')
      end
  | r => r
  end.

Definition info (m : Msg) : M unit := emit (Info m).

Definition lift {A} (o : outcome A) : M A :=
  match o with
  | Returns a => mret a
  | Raises e => raise e
  end.

(** An outside call: recorded, then answered. *)
Definition ext {A} (c : Call) (o : outcome A) : M A := emit (Ext c);; lift o.

(** ** Constants of the source *)

Definition OPENSEA_HOME_URL : string := "https://opensea.io/".

Definition url_filter : string := "?search[sortBy]=UNIT_PRICE&search[sortAscending]=false".

(** The character [chr(34)]. *)
Definition dquote : ascii := Ascii.ascii_of_nat 34.

(** The CSS attribute selector [[class="..."]] for a class list. *)
Definition class_is (classes : string) : string :=
  "[class=" +:+ String dquote classes +:+ String dquote "]".

Definition sel_owner_name : string := class_is "sc-29427738-0 sc-bdnxRM dKfiYh iIKkrq".
Definition sel_asset_anchor : string := class_is "sc-1f719d57-0 fKAlPV Asset--anchor".
Definition sel_collection_label : string :=
  class_is "sc-29427738-0 sc-d0e902a1-3 sc-21df3ef5-6 sc-ec8f13a5-5 eLucQB hVPIAI kixOOB".
Definition sel_collection_link : string := class_is "sc-1f719d57-0 fKAlPV CollectionLink--link".
Definition sel_best_offer : string :=
  class_is "sc-1a668f09-0 UitxP Price--fiat-amount Price--fiat-amount-secondary".

(** The dict written by [get_settings] when [Settings.json] is missing. *)
Definition seed_settings : Settings := {[ "Settings" := {[ "ThreadsCount" := 5%Z ]} ]}.

(** ** The methods of [OpenSeaBot] *)

(** [d[k]] on a dict. *)
Definition getitem {V} (d : gmap string V) (k : string) : M V :=
  match d !! k with
  | Some v => mret v
  | None => raise (KeyError k)
  end.

(** [l[-1]] on a list. *)
Definition getitem_last {A} (l : list A) : M A :=
  match last l with
  | Some x => mret x
  | None => raise IndexError
  end.

(** [get_settings]: load the file when it is there, else write the seed and
    read it back.  Here every [open], [json.load] and [json.dump] goes
    through: this is [get_settings_io] below on a disk that answers, and
    [get_settings_io] is the method when the disk may refuse. *)
Definition get_settings : M Settings :=
  on_disk ← gets file_settings;
  match on_disk with
  | Some settings => mret settings
  | None =>
      let settings := seed_settings in
      modify (set_file_settings (Some settings));;
      reread ← gets file_settings;
      match reread with
      | Some settings => mret settings
      | None => raise OSError
      end
  end.

(** What the disk answers to [get_settings]: opening the file that is there
    and [json.load] on it; opening the file for writing and [json.dump];
    opening the file just written and [json.load] on it. *)
Record SettingsIO := {
  load_existing : outcome unit;
  dump_seed : outcome unit;
  load_seeded : outcome unit
}.

(** [get_settings] on a disk that may refuse (a missing [BotRes] directory,
    a damaged file): each [with open(...)] block raises what the disk
    raises. *)
Definition get_settings_io (io : SettingsIO) : M Settings :=
  on_disk ← gets file_settings;
  match on_disk with
  | Some settings =>
      lift (load_existing io);;
      mret settings
  | None =>
      let settings := seed_settings in
      lift (dump_seed io);;
      modify (set_file_settings (Some settings));;
      lift (load_seeded io);;
      reread ← gets file_settings;
      match reread with
      | Some settings => mret settings
      | None => raise OSError
      end
  end.

(** What [to_csv] leaves in the file: mode [w] truncates, mode [a] keeps what
    is there; then the header when asked for, then the row. *)
Definition csv_after (mode : Mode) (header : bool) (row : list string)
    (old : option (list (list string))) : list (list string) :=
  match mode with ModeW => [] | ModeA => default [] old end
  ++ (if header then [columns] else []) ++ [row].

Section PerAddress.

Variable w : World.

Definition get_user_agent : M string := lift (choose_user_agent w).

Definition get_proxy : M string :=
  proxy ← lift (choose_proxy w);
  info (MsgProxySelected proxy);;
  mret proxy.

Definition get_driver (proxy headless : bool) : M Driver :=
  user_agent ← get_user_agent;
  proxy_server ← (if proxy then p ← get_proxy; mret (Some p) else mret None);
  ext (CallChrome user_agent proxy_server headless) (start_chrome w);;
  driver ← gets started;
  modify open_session;;
  mret driver.

(** [finish]: only a [WebDriverException] is handled. *)
Definition finish (driver : Driver) : M unit :=
  try_except
    (info MsgClosing;;
     ext (CallClose driver) (close_window w);;
     ext (CallQuit driver) (quit_chrome w);;
     modify (drop_session driver))
    (λ exc, if is_WebDriverException exc then info (MsgIssueClosing exc) else raise exc).

(** [WebDriverWait(driver, duration, frequency).until(
      EC.visibility_of_element_located((by, value)))] *)
Definition WebDriverWait_until (driver : Driver) (by_ : By) (value : option string)
    (duration : Z) : M unit :=
  match value with
  | Some v => ext (CallWait driver by_ v duration) (until_visible w by_ v duration)
  | None => mret tt
  end.

(** [wait_until_visible]; every caller passes [duration], and the polling
    [frequency] (0.01 s) only paces the wait. *)
Definition wait_until_visible (driver : Driver)
    (css_selector element_id name class_name tag_name : option string) (duration : Z) : M unit :=
  if PyStr.truthy css_selector then WebDriverWait_until driver CSS_SELECTOR css_selector duration
  else if PyStr.truthy element_id then WebDriverWait_until driver ID element_id duration
  else if PyStr.truthy name then WebDriverWait_until driver NAME name duration
  else if PyStr.truthy class_name then WebDriverWait_until driver CLASS_NAME class_name duration
  else if PyStr.truthy tag_name then WebDriverWait_until driver TAG_NAME tag_name duration
  else mret tt.

(** [driver.get(url)] *)
Definition driver_get (driver : Driver) (url : string) : M unit :=
  ext (CallGet driver url) (load w url).

(** [driver.find_element(By.CSS_SELECTOR, value).text] *)
Definition find_text (driver : Driver) (value : string) : M string :=
  ext (CallFind driver CSS_SELECTOR value) (element_text w CSS_SELECTOR value).

(** [driver.find_element(By.CSS_SELECTOR, value).get_attribute('href')] *)
Definition find_href (driver : Driver) (value : string) : M string :=
  ext (CallFind driver CSS_SELECTOR value) (element_href w CSS_SELECTOR value).

(** [os.path.isfile(self.file_valid)] *)
Definition isfile_valid : M bool :=
  gets (λ st, match file_valid st with Some _ => true | None => false end).

(** [DataFrame([stats]).to_csv(self.file_valid, mode=..., header=..., index=False, sep='|')].
    [Valid.csv] is held as its records: this is what the call does to a file
    that is absent or whose last record ends in a line terminator, as every
    file written by this call does; a call that raises is taken to have
    written nothing. *)
Definition to_csv (mode : Mode) (header : bool) (stats : Stats) : M unit :=
  ext (CallToCsv mode header stats) (write_csv w);;
  modify (λ st, set_file_valid (Some (csv_after mode header (row_of stats) (file_valid st))) st).

(** Lines 250-255: the record writer. *)
Definition append_record (stats : Stats) : M unit :=
  there ← isfile_valid;
  if negb there then to_csv ModeW true stats
  else to_csv ModeA false stats.

(** The body of the [for] loop of [get_address_details] (lines 200-257).
    The four fields initialised to [''] on line 211 and assigned inside a
    [try] are the values of the corresponding guarded blocks. *)
Definition loop_body (i : nat) (address : string) : M unit :=
  driver ← get_driver true false;
  let final_url := OPENSEA_HOME_URL +:+ address +:+ url_filter in
  info (MsgScraping i address final_url);;
  driver_get driver final_url;;
  info MsgWaitingOpenSea;;
  premium ← try_except
    (wait_until_visible driver (Some sel_owner_name) None None None None 10;;
     address_name ← find_text driver sel_owner_name;
     mret (if negb (PyStr.contains "Unnamed" address_name) then "Y" else ""))
    (λ _, mret "");
  try_except
    (wait_until_visible driver (Some sel_asset_anchor) None None None None 10)
    (λ _, info MsgNoCollection;; continue_);;
  collection ← try_except
    (text ← find_text driver sel_collection_label;
     mret (PyStr.remove_char dquote text))
    (λ _, mret "");
  asset_url ← find_href driver sel_asset_anchor;
  driver_get driver asset_url;;
  info MsgWaitingStats;;
  try_except
    (wait_until_visible driver (Some sel_collection_link) None None None None 5)
    (λ _, continue_);;
  collection_name ← try_except (find_text driver sel_collection_link) (λ _, mret "");
  best_offer ← try_except (find_text driver sel_best_offer) (λ _, mret "");
  asset_number ← getitem_last (PyStr.split "/" asset_url);
  let stats := {| TodaysDate := strftime_now w; ScanAddress := address;
                  CollectionName := collection_name; Collection := collection;
                  AssetNumber := asset_number; BestOffer := best_offer;
                  Premium := premium |} in
  info (MsgStats stats);;
  append_record stats;;
  info MsgSaved;;
  finish driver.

End PerAddress.

(** A cell of the [Address] column as pandas hands it over: a [str], or a
    number ([numpy.int64], [numpy.float64], the NaN of a blank cell). *)
Inductive Cell :=
| CellStr (address : string)
| CellNumber.

(** The body of the loop on any cell: the session is made on line 201, and
    on line 206 [str + number] raises [TypeError], outside every [try]. *)
Definition loop_body_cell (w : World) (i : nat) (cell : Cell) : M unit :=
  match cell with
  | CellStr address => loop_body w i address
  | CellNumber =>
      driver ← get_driver w true false;
      raise TypeError
  end.

(** [for i, address in enumerate(addresses)], entered at index [i]: a
    [continue] or a normal end of the body goes on with the next address, an
    exception leaves the loop. *)
Fixpoint get_address_details_from (world : nat -> World) (i : nat) (addresses : list string) : M unit :=
  match addresses with
  | [] => mret tt
  | address :: rest => λ st,
      match loop_body (world i) i address st with
      | ran (Raise e) st' evs => ran (Raise e) st' evs
      | ran _ st' evs =>
          match get_address_details_from world (S i) rest st' with
          | ran res st'' evs' => ran res st'' (evs ++ evs')
          end
      end
  end.

Definition get_address_details (world : nat -> World) (addresses : list string) : M unit :=
  get_address_details_from world 0 addresses.

(** [main], given [self.settings] as [__init__] loaded it.  The [Address]
    column is taken to hold [str] cells; what one pass does with a cell that
    is not a [str] is [loop_body_cell] below. *)
Definition main (o : Outside) (settings : Settings) : M unit :=
  info MsgLaunched;;
  section ← getitem settings "Settings";
  thread_counts ← getitem section "ThreadCount";
  addresses ← ext CallReadCsv (read_addresses o);
  get_address_details (world o) addresses.

(** [OpenSeaBot().main()] *)
Definition script (o : Outside) : M unit :=
  settings ← get_settings;
  main o settings.

(** A process that has just started: nothing but the files is carried over. *)
Definition boot (file_settings : option Settings) (file_valid : option (list (list string))) : State :=
  {| file_settings := file_settings; file_valid := file_valid; sessions := []; started := 0 |}.

(** ** Sample worlds *)

Module Sample.

(** A collection page and an asset page that render everything. *)
Definition text_of (sel : string) : outcome string :=
  if String.eqb sel sel_owner_name then Returns "LarvaLabs"
  else if String.eqb sel sel_collection_label then Returns "Collection"
  else if String.eqb sel sel_collection_link then Returns "CryptoPunks"
  else if String.eqb sel sel_best_offer then Returns "0.5 ETH"
  else Raises NoSuchElementException.

Definition rendered : World := {|
  choose_user_agent := Returns "Mozilla/5.0";
  choose_proxy := Returns "10.0.0.1:3128";
  start_chrome := Returns tt;
  load := λ _, Returns tt;
  until_visible := λ _ _ _, Returns tt;
  element_text := λ _ sel, text_of sel;
  element_href := λ _ _, Returns "https://opensea.io/assets/ethereum/0xb47e/3100";
  strftime_now := "11-03-2026";
  write_csv := Returns tt;
  close_window := Returns tt;
  quit_chrome := Returns tt
|}.

(** The same, but the asset anchor never shows on the collection page. *)
Definition no_anchor : World := {|
  choose_user_agent := choose_user_agent rendered;
  choose_proxy := choose_proxy rendered;
  start_chrome := Returns tt;
  load := load rendered;
  until_visible := λ _ sel _,
    if String.eqb sel sel_asset_anchor then Raises TimeoutException else Returns tt;
  element_text := element_text rendered;
  element_href := λ _ _, Raises NoSuchElementException;
  strftime_now := strftime_now rendered;
  write_csv := Returns tt;
  close_window := Returns tt;
  quit_chrome := Returns tt
|}.

(** The same as [rendered], but the asset page never shows its collection link. *)
Definition no_link : World := {|
  choose_user_agent := choose_user_agent rendered;
  choose_proxy := choose_proxy rendered;
  start_chrome := Returns tt;
  load := load rendered;
  until_visible := λ _ sel _,
    if String.eqb sel sel_collection_link then Raises TimeoutException else Returns tt;
  element_text := element_text rendered;
  element_href := element_href rendered;
  strftime_now := strftime_now rendered;
  write_csv := Returns tt;
  close_window := Returns tt;
  quit_chrome := Returns tt
|}.


(** The same as [rendered], but the owner-name element never shows. *)
Definition no_badge : World := {|
  choose_user_agent := choose_user_agent rendered;
  choose_proxy := choose_proxy rendered;
  start_chrome := Returns tt;
  load := load rendered;
  until_visible := λ _ sel _,
    if String.eqb sel sel_owner_name then Raises TimeoutException else Returns tt;
  element_text := element_text rendered;
  element_href := element_href rendered;
  strftime_now := strftime_now rendered;
  write_csv := Returns tt;
  close_window := Returns tt;
  quit_chrome := Returns tt
|}.

(** No offer is listed, and the anchor's [href] ends in a slash. *)
Definition trailing_slash : World := {|
  choose_user_agent := choose_user_agent rendered;
  choose_proxy := choose_proxy rendered;
  start_chrome := Returns tt;
  load := load rendered;
  until_visible := until_visible rendered;
  element_text := λ _ sel,
    if String.eqb sel sel_best_offer then Raises NoSuchElementException else text_of sel;
  element_href := λ _ _, Returns "https://opensea.io/assets/ethereum/0xb47e/3100/";
  strftime_now := strftime_now rendered;
  write_csv := Returns tt;
  close_window := Returns tt;
  quit_chrome := Returns tt
|}.

(** No offer is listed on an otherwise complete asset page. *)
Definition no_offer : World := {|
  choose_user_agent := choose_user_agent rendered;
  choose_proxy := choose_proxy rendered;
  start_chrome := Returns tt;
  load := load rendered;
  until_visible := until_visible rendered;
  element_text := element_text trailing_slash;
  element_href := element_href rendered;
  strftime_now := strftime_now rendered;
  write_csv := Returns tt;
  close_window := Returns tt;
  quit_chrome := Returns tt
|}.

(** Batches in which one address meets [no_anchor], [no_link] or [no_chrome]
    and the other addresses render. *)
Definition first_has_no_anchor (i : nat) : World :=
  match i with 0 => no_anchor | _ => rendered end.

Definition second_has_no_anchor (i : nat) : World :=
  match i with 1 => no_anchor | _ => rendered end.

Definition first_has_no_link (i : nat) : World :=
  match i with 0 => no_link | _ => rendered end.


End Sample.


(** ** Vocabulary of the properties *)

(** The records handed to [to_csv] among some events, in call order. *)
Fixpoint csv_calls (evs : list Event) : list Stats :=
  match evs with
  | [] => []
  | Ext (CallToCsv _ _ stats) :: evs' => stats :: csv_calls evs'
  | _ :: evs' => csv_calls evs'
  end.


(** A session is made and the collection page is asked for without an exception. *)
Definition reaches_collection_page (w : World) (address : string) : bool :=
  is_ok (choose_user_agent w) && is_ok (choose_proxy w) && is_ok (start_chrome w)
  && is_ok (load w (OPENSEA_HOME_URL +:+ address +:+ url_filter)).

(** The asset anchor becomes visible within its 10 seconds. *)
Definition anchor_resolves (w : World) : bool :=
  is_ok (until_visible w CSS_SELECTOR sel_asset_anchor 10).

(** The anchor's [href] is read and the asset page is asked for without an exception. *)
Definition reaches_asset_page (w : World) : bool :=
  match element_href w CSS_SELECTOR sel_asset_anchor with
  | Returns asset_url => is_ok (load w asset_url)
  | Raises _ => false
  end.

(** The asset page's collection link becomes visible within its 5 seconds. *)
Definition link_resolves (w : World) : bool :=
  is_ok (until_visible w CSS_SELECTOR sel_collection_link 5).

(** One of the two structural waits is reached and times out. *)
Definition structural_timeout (w : World) (address : string) : bool :=
  reaches_collection_page w address
  && (negb (anchor_resolves w) || reaches_asset_page w && negb (link_resolves w)).

(** Both structural waits are reached and succeed. *)
Definition both_anchors_resolve (w : World) (address : string) : bool :=
  reaches_collection_page w address && anchor_resolves w
  && reaches_asset_page w && link_resolves w.

(** An exception that [finish] handles, if any. *)
Definition handled_by_finish {A} (o : outcome A) : bool :=
  match o with
  | Returns _ => true
  | Raises e => is_WebDriverException e
  end.

(** Closing the session lets nothing through. *)
Definition closes_quietly (w : World) : bool :=
  handled_by_finish (close_window w)
  && (negb (is_ok (close_window w)) || handled_by_finish (quit_chrome w)).

(** Every call of the loop body that stands outside a [try] and is reached
    returns: making the session, the two [driver.get], reading the [href],
    [to_csv], and (up to [WebDriverException]) closing. *)
Definition unguarded_calls_return (w : World) (address : string) : bool :=
  reaches_collection_page w address
  && (negb (anchor_resolves w)
      || reaches_asset_page w
         && (negb (link_resolves w) || is_ok (write_csv w) && closes_quietly w)).

(** The owner-name element is visible within its 10 seconds, its text is
    read, and the text does not contain "Unnamed". *)
Definition badge_shown (w : World) : Prop :=
  until_visible w CSS_SELECTOR sel_owner_name 10 = Returns tt ∧
  ∃ address_name, element_text w CSS_SELECTOR sel_owner_name = Returns address_name ∧
    ¬ ∃ pre post, address_name = pre +:+ "Unnamed" +:+ post.

(** [seg] is the final [/]-delimited segment of [url]: it holds no slash, and
    it is the whole of [url] or what follows a slash at the end of [url]. *)
Definition final_segment (url seg : string) : Prop :=
  PyStr.free_of "/" seg ∧ (url = seg ∨ ∃ pre, url = pre +:+ String "/" seg).

(** The first locator, in the order given, whose argument is truthy. *)
Fixpoint first_supplied (locators : list (By * option string)) : option (By * string) :=
  match locators with
  | [] => None
  | (by_, Some (String a v)) :: _ => Some (by_, String a v)
  | _ :: rest => first_supplied rest
  end.

(** One process run of the record writer: the records of [jobs] are appended
    in order, each under the world that holds while it is written. *)
Fixpoint append_records (jobs : list (World * Stats)) : M unit :=
  match jobs with
  | [] => mret tt
  | (w, stats) :: rest => append_record w stats;; append_records rest
  end.

(** ** The resource files *)

(** [c.isspace()] for a character below 256: the characters [str.strip()]
    removes. *)
Definition isspace (c : ascii) : bool :=
  let n := Ascii.nat_of_ascii c in
  ((9 <=? n) && (n <=? 13) || (28 <=? n) && (n <=? 32) || (n =? 133) || (n =? 160))%nat.

(** [s.lstrip()] *)
Fixpoint lstrip (s : string) : string :=
  match s with
  | EmptyString => EmptyString
  | String a s' => if isspace a then lstrip s' else s
  end.

(** [s.rstrip()] *)
Fixpoint rstrip (s : string) : string :=
  match s with
  | EmptyString => EmptyString
  | String a s' =>
      match rstrip s' with
      | EmptyString => if isspace a then EmptyString else String a EmptyString
      | kept => String a kept
      end
  end.

(** [s.strip()] *)
Definition strip (s : string) : string := rstrip (lstrip s).

(** [random.choice(seq)], the generator's draw being [pick]: an empty
    sequence raises [IndexError], any other yields one of its elements. *)
Definition choice {A} (seq : list A) (pick : nat) : outcome A :=
  match seq with
  | [] => Raises IndexError
  | _ =>
      match seq !! (pick mod length seq) with
      | Some x => Returns x
      | None => Raises IndexError
      end
  end.

(** Lines 127-130 and 135-138, shared by [get_user_agent] and [get_proxy]:
    [content = f.readlines()], every line stripped, one of them chosen. *)
Definition choose_line (readlines : outcome (list string)) (pick : nat) : outcome string :=
  match readlines with
  | Returns content => choice (strip <$> content) pick
  | Raises e => Raises e
  end.

(** Every character of [s] is white space. *)
Fixpoint all_space (s : string) : Prop :=
  match s with
  | EmptyString => True
  | String a s' => isspace a = true ∧ all_space s'
  end.

(** [s] neither starts nor ends with white space. *)
Definition trimmed (s : string) : Prop :=
  (∀ a rest, s = String a rest -> isspace a = false)
  ∧ (∀ front a, s = front +:+ String a EmptyString -> isspace a = false).

(** ** Vocabulary of the further properties *)

(** What a best-effort read leaves in its field. *)
Definition text_or_empty (o : outcome string) : string :=
  match o with
  | Returns text => text
  | Raises _ => EmptyString
  end.

(** [Valid.csv] after the given records were written to it in order by
    [append_record]: untouched by no record, created with the header by the
    first record when it did not exist, extended otherwise. *)
Definition store_with (old : option (list (list string))) (records : list Stats)
    : option (list (list string)) :=
  match records, old with
  | [], _ => old
  | _ :: _, None => Some (columns :: map row_of records)
  | _ :: _, Some rows => Some (rows ++ map row_of records)
  end.

(** The handles of the open sessions are distinct and were all handed out. *)
Definition sessions_fresh (st : State) : Prop :=
  NoDup (sessions st) ∧ Forall (λ d, d < started st) (sessions st).

(** The pass runs to its last line and both calls of [finish] return. *)
Definition runs_to_the_end (w : World) (address : string) : bool :=
  both_anchors_resolve w address && is_ok (write_csv w)
  && is_ok (close_window w) && is_ok (quit_chrome w).

(** A world that differs from [Sample.rendered] only in its two resource files. *)
Definition with_resource_files (user_agents proxies : outcome (list string)) (pick : nat)
    : World := {|
  choose_user_agent := choose_line user_agents pick;
  choose_proxy := choose_line proxies pick;
  start_chrome := start_chrome Sample.rendered;
  load := load Sample.rendered;
  until_visible := until_visible Sample.rendered;
  element_text := element_text Sample.rendered;
  element_href := element_href Sample.rendered;
  strftime_now := strftime_now Sample.rendered;
  write_csv := write_csv Sample.rendered;
  close_window := close_window Sample.rendered;
  quit_chrome := quit_chrome Sample.rendered
|}.

(** The fields of a record as the pass reads them: the date and the address,
    and for each best-effort field the text read, or nothing when that read
    raised; the collection label loses its double quotes. *)
Definition fields_as_read (w : World) (address : string) (stats : Stats) : Prop :=
  TodaysDate stats = strftime_now w
  ∧ ScanAddress stats = address
  ∧ CollectionName stats = text_or_empty (element_text w CSS_SELECTOR sel_collection_link)
  ∧ Collection stats
    = PyStr.remove_char dquote (text_or_empty (element_text w CSS_SELECTOR sel_collection_label))
  ∧ BestOffer stats = text_or_empty (element_text w CSS_SELECTOR sel_best_offer).

(** [e] was raised by a call of the loop body that stands outside every
    [try], or by [finish] and is not a [WebDriverException]. *)
Definition raised_outside_try (w : World) (address : string) (e : exn) : Prop :=
  choose_user_agent w = Raises e
  ∨ choose_proxy w = Raises e
  ∨ start_chrome w = Raises e
  ∨ load w (OPENSEA_HOME_URL +:+ address +:+ url_filter) = Raises e
  ∨ element_href w CSS_SELECTOR sel_asset_anchor = Raises e
  ∨ (∃ asset_url, element_href w CSS_SELECTOR sel_asset_anchor = Returns asset_url
                  ∧ load w asset_url = Raises e)
  ∨ write_csv w = Raises e
  ∨ (is_WebDriverException e = false
     ∧ (close_window w = Raises e ∨ quit_chrome w = Raises e)).

(** How many times Chrome was started among some events. *)
Fixpoint chrome_starts (evs : list Event) : nat :=
  match evs with
  | [] => 0
  | Ext (CallChrome _ _ _) :: evs' => S (chrome_starts evs')
  | _ :: evs' => chrome_starts evs'
  end.

(** ** Vocabulary of the revised properties *)

(** The exception that ends a pass: the one raised by the first call outside
    every [try] that is reached and raises (for [close] and [quit], one that
    [finish] does not handle), if there is one.  The calls are taken in the
    order of the loop body; a structural wait that does not resolve ends the
    pass by [continue] before the later calls are reached. *)
Definition unguarded_failure (w : World) (address : string) : option exn :=
  match choose_user_agent w with
  | Raises e => Some e
  | Returns _ =>
  match choose_proxy w with
  | Raises e => Some e
  | Returns _ =>
  match start_chrome w with
  | Raises e => Some e
  | Returns _ =>
  match load w (OPENSEA_HOME_URL +:+ address +:+ url_filter) with
  | Raises e => Some e
  | Returns _ =>
  if negb (anchor_resolves w) then None else
  match element_href w CSS_SELECTOR sel_asset_anchor with
  | Raises e => Some e
  | Returns asset_url =>
  match load w asset_url with
  | Raises e => Some e
  | Returns _ =>
  if negb (link_resolves w) then None else
  match write_csv w with
  | Raises e => Some e
  | Returns _ =>
  match close_window w with
  | Raises e => if is_WebDriverException e then None else Some e
  | Returns _ =>
  match quit_chrome w with
  | Raises e => if is_WebDriverException e then None else Some e
  | Returns _ => None
  end end end end end end end end end.





(** The drivers that the calls among some events are made on, in call order. *)
Fixpoint driver_calls (evs : list Event) : list Driver :=
  match evs with
  | [] => []
  | Ext (CallGet d _) :: evs' => d :: driver_calls evs'
  | Ext (CallWait d _ _ _) :: evs' => d :: driver_calls evs'
  | Ext (CallFind d _ _) :: evs' => d :: driver_calls evs'
  | Ext (CallClose d) :: evs' => d :: driver_calls evs'
  | Ext (CallQuit d) :: evs' => d :: driver_calls evs'
  | _ :: evs' => driver_calls evs'
  end.

(** [raised_outside_try] for any cell: with a number in the cell, only
    making the session can raise before line 206 raises [TypeError]. *)
Definition raised_outside_try_cell (w : World) (cell : Cell) (e : exn) : Prop :=
  match cell with
  | CellStr address => raised_outside_try w address e
  | CellNumber =>
      choose_user_agent w = Raises e ∨ choose_proxy w = Raises e
      ∨ start_chrome w = Raises e ∨ e = TypeError
  end.

(** ** Facts about the string operations *)

Module PyStrFacts.
Import PyStr.

Lemma startswith_spec p s :
  startswith p s = true <-> exists post, s = p +:+ post.
Proof.
  revert s. induction p as [|a p IH]; intros s; simpl.
  - split; [intros _; by exists s | done].
  - destruct s as [|b s].
    + split; [done | intros [post Hpost]; discriminate].
    + destruct (Ascii.eqb_spec a b) as [->|Hne].
      * rewrite IH. split; intros [post Hpost]; exists post.
        -- by rewrite Hpost.
        -- by injection Hpost.
      * split; [done | intros [post Hpost]; injection Hpost; congruence].
Qed.

Lemma contains_spec needle hay :
  contains needle hay = true <-> exists pre post, hay = pre +:+ needle +:+ post.
Proof.
  induction hay as [|b hay IH]; simpl.
  - rewrite orb_false_r, startswith_spec. split.
    + intros [post Hpost]. by exists EmptyString, post.
    + intros [[|c pre] [post Hpost]]; [by exists post | discriminate].
  - rewrite orb_true_iff, startswith_spec, IH. split.
    + intros [[post Hpost] | (pre & post & Hpost)].
      * by exists EmptyString, post.
      * exists (String b pre), post. simpl. by rewrite Hpost.
    + intros ([|c pre] & post & Hpost).
      * left. by exists post.
      * right. exists pre, post. simpl in Hpost. by injection Hpost.
Qed.

Lemma split_nonempty sep s : split sep s <> [].
Proof.
  destruct s as [|a s]; simpl; [done |].
  destruct (Ascii.eqb a sep); [done |]. by destruct (split sep s).
Qed.

Lemma split_free sep s : free_of sep s -> split sep s = [s].
Proof.
  induction s as [|a s IH]; simpl; [done |].
  intros [Ha Hs]. destruct (Ascii.eqb_spec a sep); [done |]. by rewrite IH.
Qed.

Lemma split_cut sep pre post :
  exists piece rest, split sep (pre +:+ String sep post) = piece :: rest ++ [default post (last (split sep post))].
Proof.
  induction pre as [|a pre (piece & rest & IH)]; simpl.
  - rewrite Ascii.eqb_refl. exists EmptyString.
    destruct (split sep post) as [|p l] eqn:E using rev_ind; [by destruct (split_nonempty sep post) |].
    exists l. by rewrite last_snoc.
  - rewrite IH. destruct (Ascii.eqb a sep); eauto.
    by exists EmptyString, (piece :: rest).
Qed.

(** The last piece of a split holds no separator and is what follows the
    last separator of the string (or the whole string when there is none). *)
Lemma split_last sep s :
  exists seg, last (split sep s) = Some seg /\ free_of sep seg /\
    ((s = seg) \/ exists pre, s = pre +:+ String sep seg).
Proof.
  induction s as [|a s (seg & Hlast & Hfree & Hshape)]; simpl.
  - exists EmptyString. simpl. auto.
  - destruct (Ascii.eqb_spec a sep) as [->|Hne].
    + exists seg. split; [|split; [done |]].
      * destruct (split sep s) eqn:E; [by destruct (split_nonempty sep s) | done].
      * right. destruct Hshape as [->|[pre ->]].
        -- by exists EmptyString.
        -- by exists (String sep pre).
    + destruct Hshape as [->|[pre ->]].
      * rewrite split_free by done. exists (String a seg). simpl. auto.
      * destruct (split_cut sep pre seg) as (piece & rest & E).
        rewrite E in Hlast |- *. exists seg. split; [|split; [done |]].
        -- rewrite app_comm_cons, last_snoc in Hlast.
           by rewrite (app_comm_cons rest _ (String a piece)), last_snoc.
        -- right. by exists (String a pre).
Qed.

Example split_asset_url :
  split "/" "https://opensea.io/assets/ethereum/0xb47e/3100"
  = ["https:"; ""; "opensea.io"; "assets"; "ethereum"; "0xb47e"; "3100"].
Proof. reflexivity. Qed.

Example split_trailing_slash : split "/" "assets/3100/" = ["assets"; "3100"; ""].
Proof. reflexivity. Qed.

Example contains_Unnamed :
  contains "Unnamed" "Unnamed Collection" = true ∧ contains "Unnamed" "LarvaLabs" = false.
Proof. by split. Qed.

Example remove_quotes : remove_char dquote (String dquote "Art" +:+ String dquote "") = "Art".
Proof. reflexivity. Qed.

End PyStrFacts.

#[local] Arguments String.append : simpl never.
#[local] Arguments PyStr.contains : simpl never.
#[local] Arguments PyStr.split : simpl never.

(** ** Running the loop body *)

(** Unfolds the methods down to the oracle calls they make. *)
Ltac expose :=
  unfold loop_body, get_driver, get_user_agent, get_proxy, finish, append_record, to_csv,
    isfile_valid, wait_until_visible, WebDriverWait_until, driver_get, find_text, find_href,
    getitem_last, ext, info, emit, lift, try_except, modify, gets, raise, continue_,
    mbind, M_bind, mret, M_ret; simpl.

(** Settles the oracle call [o] both ways, when the goal still waits on it. *)
Ltac answer o :=
  lazymatch goal with
  | |- context [o] => destruct o as [?|?] eqn:?; simpl in *; try done
  | _ => idtac
  end.

(** Settles the oracle calls of the loop body in the order it makes them. *)
Ltac walk w address :=
  answer (choose_user_agent w); answer (choose_proxy w); answer (start_chrome w);
  answer (load w (OPENSEA_HOME_URL +:+ address +:+ url_filter));
  answer (until_visible w CSS_SELECTOR sel_owner_name 10);
  answer (element_text w CSS_SELECTOR sel_owner_name);
  answer (until_visible w CSS_SELECTOR sel_asset_anchor 10);
  answer (element_text w CSS_SELECTOR sel_collection_label);
  answer (element_href w CSS_SELECTOR sel_asset_anchor);
  try match goal with
      | H : element_href w CSS_SELECTOR sel_asset_anchor = Returns ?url |- _ => answer (load w url)
      end;
  answer (until_visible w CSS_SELECTOR sel_collection_link 5).

Lemma skip_run w i address st :
  structural_timeout w address = true ->
  let r := loop_body w i address st in
  result r = Continue ∧ after r = open_session st ∧ csv_calls (events r) = [].
Proof.
  unfold structural_timeout, reaches_collection_page, anchor_resolves, reaches_asset_page,
    link_resolves.
  intros H. expose. walk w address.
Qed.

(** Settles what is left once the collection link has shown: the two
    best-effort reads, the last piece of the split, whether [Valid.csv]
    exists, the write and the close. *)
Ltac walk_end w st :=
  answer (element_text w CSS_SELECTOR sel_collection_link);
  answer (element_text w CSS_SELECTOR sel_best_offer);
  try match goal with
      | |- context [last (PyStr.split "/" ?url)] =>
          let seg := fresh "seg" in
          let Hlast := fresh "Hlast" in
          destruct (PyStrFacts.split_last "/" url) as (seg & Hlast & ? & ?);
          rewrite Hlast; simpl in *
      end;
  try (destruct (file_valid st) as [?|] eqn:?; simpl in * );
  answer (write_csv w); answer (close_window w); answer (quit_chrome w);
  repeat match goal with
         | |- context [is_WebDriverException ?e] =>
             destruct (is_WebDriverException e) eqn:?; simpl in *; try done
         end.

(** ** Per-address properties *)

(** C8. When the asset anchor and the asset page's collection link both show
    within their timeouts, the pass over that address hands exactly one
    record to [to_csv], and its [ScanAddress] is the address. *)
Theorem one_record_per_resolved_address w i address st :
  both_anchors_resolve w address = true ->
  ∃ stats, csv_calls (events (loop_body w i address st)) = [stats] ∧ ScanAddress stats = address.
Proof.
  unfold both_anchors_resolve, reaches_collection_page, anchor_resolves, reaches_asset_page,
    link_resolves.
  intros H. expose. walk w address; walk_end w st; by eexists.
Qed.

Lemma one_record_per_resolved_address_witness :
  ∃ stats, csv_calls (events (loop_body Sample.rendered 0 "cryptopunks" (boot None None))) = [stats]
           ∧ ScanAddress stats = "cryptopunks".
Proof. apply one_record_per_resolved_address. reflexivity. Defined.

(** The record a pass wrote, if it wrote one. *)
Ltac the_record :=
  let Hin := fresh "Hin" in
  intros Hin; simpl in Hin;
  first [ by apply elem_of_nil in Hin | apply list_elem_of_singleton in Hin as -> ];
  simpl.

(** Closes the two directions of the badge equivalence once the owner-name
    wait and read are settled. *)
Ltac badge_case :=
  unfold badge_shown;
  repeat match goal with
         | H : until_visible _ _ sel_owner_name _ = _ |- _ => rewrite H; clear H
         | H : element_text _ _ sel_owner_name = _ |- _ => rewrite H; clear H
         | u : () |- _ => destruct u
         end;
  try match goal with
      | |- context [PyStr.contains "Unnamed" ?t] =>
          let E := fresh "E" in
          destruct (PyStr.contains "Unnamed" t) eqn:E; simpl;
          [ apply PyStrFacts.contains_spec in E
          | apply not_true_iff_false in E; rewrite PyStrFacts.contains_spec in E ]
      end;
  (split; [split | by auto];
   [ let HY := fresh in intros HY; first [ discriminate HY | by eauto ]
   | let Hwait := fresh in
     let Htext := fresh in
     intros (Hwait & ? & Htext & ?);
     first [ discriminate Hwait | discriminate Htext | by injection Htext as <- ] ]).

(** What a pass hands to [to_csv], with the badge read off the world: one
    record when both structural anchors resolve, none otherwise. *)
Lemma pass_premium w i address st :
  if both_anchors_resolve w address
  then ∃ stats, csv_calls (events (loop_body w i address st)) = [stats]
                ∧ (Premium stats = "Y" ↔ badge_shown w)
                ∧ (Premium stats = "Y" ∨ Premium stats = "")
  else csv_calls (events (loop_body w i address st)) = [].
Proof.
  unfold both_anchors_resolve, reaches_collection_page, anchor_resolves, reaches_asset_page,
    link_resolves.
  expose. walk w address; walk_end w st;
    (eexists; split; [reflexivity |]; simpl; badge_case).
Qed.

(** C4. Every pass in which both structural anchors resolve writes one
    record, whatever the owner-name wait and read do, and a record a pass
    writes has [Premium] equal to ["Y"] exactly when the owner-name element
    showed within its timeout, its text was read and the text does not
    contain "Unnamed"; in every other case (the wait timing out, the read
    raising, the text containing "Unnamed") it is the empty string. *)
Theorem premium_flag_iff_badge w i address st :
  (∀ stats, stats ∈ csv_calls (events (loop_body w i address st)) ->
     (Premium stats = "Y" ↔ badge_shown w) ∧ (Premium stats = "Y" ∨ Premium stats = ""))
  ∧ (both_anchors_resolve w address = true ->
     ∃ stats, csv_calls (events (loop_body w i address st)) = [stats]
              ∧ (Premium stats = "Y" ↔ badge_shown w)
              ∧ (Premium stats = "Y" ∨ Premium stats = "")).
Proof.
  pose proof (pass_premium w i address st) as Hpass.
  destruct (both_anchors_resolve w address).
  - destruct Hpass as (only & Hone & Hflag). split.
    + intros stats. rewrite Hone. by intros ->%list_elem_of_singleton.
    + intros _. by exists only.
  - split; [| done]. intros stats. rewrite Hpass. by intros Hin%elem_of_nil.
Qed.

(** The owner-name wait times out, both anchors resolve: one record, with an
    empty [Premium]. *)
Lemma premium_flag_iff_badge_witness :
  ∃ stats, csv_calls (events (loop_body Sample.no_badge 0 "cryptopunks" (boot None None))) = [stats]
           ∧ (Premium stats = "Y" ↔ badge_shown Sample.no_badge)
           ∧ (Premium stats = "Y" ∨ Premium stats = "").
Proof.
  apply (proj2 (premium_flag_iff_badge Sample.no_badge 0 "cryptopunks" (boot None None))).
  reflexivity.
Defined.

Example no_badge_premium_empty :
  Premium <$> csv_calls (events (loop_body Sample.no_badge 0 "cryptopunks" (boot None None)))
  = [""].
Proof. reflexivity. Qed.

(** C5. The [AssetNumber] field of a record the pass writes is the final
    [/]-delimited segment of the asset URL read from the anchor's [href]. *)
Theorem asset_number_is_final_segment w i address st stats :
  stats ∈ csv_calls (events (loop_body w i address st)) ->
  ∃ asset_url, element_href w CSS_SELECTOR sel_asset_anchor = Returns asset_url
               ∧ final_segment asset_url (AssetNumber stats).
Proof.
  unfold final_segment. expose. walk w address; walk_end w st; the_record; eauto.
Qed.

Lemma asset_number_is_final_segment_witness :
  ∃ asset_url, element_href Sample.rendered CSS_SELECTOR sel_asset_anchor = Returns asset_url
               ∧ final_segment asset_url "3100".
Proof.
  apply (asset_number_is_final_segment Sample.rendered 0 "cryptopunks" (boot None None)
           {| TodaysDate := "11-03-2026"; ScanAddress := "cryptopunks";
              CollectionName := "CryptoPunks"; Collection := "Collection";
              AssetNumber := "3100"; BestOffer := "0.5 ETH"; Premium := "Y" |}).
  vm_compute. left.
Defined.





(** ** The batch *)

Lemma loop_step world i address rest st :
  (∀ e, result (loop_body (world i) i address st) ≠ Raise e) ->
  let r := loop_body (world i) i address st in
  let batch := get_address_details_from world i (address :: rest) st in
  let next := get_address_details_from world (S i) rest (after r) in
  result batch = result next ∧ after batch = after next
  ∧ events batch = events r ++ events next.
Proof.
  simpl. destruct (loop_body (world i) i address st) as [[[]| |e] st' evs]; simpl.
  - intros _. by destruct (get_address_details_from world (S i) rest st').
  - intros _. by destruct (get_address_details_from world (S i) rest st').
  - intros H. by destruct (H e).
Qed.

(** Two addresses, the second without an asset anchor: one header, one row,
    and the batch ends normally. *)
Example one_row_for_two_addresses :
  let r := get_address_details Sample.second_has_no_anchor ["cryptopunks"; "bad-collection"]
             (boot None None) in
  result r = Ret tt
  ∧ file_valid (after r)
    = Some [columns;
            ["11-03-2026"; "cryptopunks"; "CryptoPunks"; "Collection"; "3100"; "0.5 ETH"; "Y"]].
Proof. by vm_compute. Qed.

(** C3. When the asset anchor, or later the asset page's collection link,
    does not show within its timeout, the pass over that address hands no
    record to [to_csv] and leaves [Valid.csv] as it was, and the batch goes
    on: what it does from this address on is this pass followed by the
    batch from the next address. *)
Theorem structural_timeout_skips world i address rest st :
  structural_timeout (world i) address = true ->
  let r := loop_body (world i) i address st in
  let batch := get_address_details_from world i (address :: rest) st in
  let next := get_address_details_from world (S i) rest (after r) in
  result r = Continue ∧ csv_calls (events r) = [] ∧ file_valid (after r) = file_valid st
  ∧ result batch = result next ∧ after batch = after next
  ∧ events batch = events r ++ events next.
Proof.
  intros H. pose proof (skip_run (world i) i address st H) as Hskip.
  cbv zeta in Hskip |- *. destruct Hskip as (Hres & Hafter & Hcsv).
  split; [done |]. split; [done |]. split; [by rewrite Hafter |].
  apply (loop_step world i address rest st). intros e. by rewrite Hres.
Qed.

Lemma structural_timeout_skips_witness :
  let st := boot None None in
  let r := loop_body Sample.no_anchor 0 "bad-collection" st in
  let batch :=
    get_address_details_from Sample.first_has_no_anchor 0 ["bad-collection"; "cryptopunks"] st in
  let next := get_address_details_from Sample.first_has_no_anchor 1 ["cryptopunks"] (after r) in
  result r = Continue ∧ csv_calls (events r) = [] ∧ file_valid (after r) = file_valid st
  ∧ result batch = result next ∧ after batch = after next
  ∧ events batch = events r ++ events next.
Proof.
  apply (structural_timeout_skips Sample.first_has_no_anchor 0 "bad-collection" ["cryptopunks"]
           (boot None None)).
  reflexivity.
Defined.

(** Membership in an explicit list of events, settled by comparison. *)
Ltac not_among Hin :=
  repeat (apply elem_of_cons in Hin as [Hin|Hin]; [discriminate Hin |]);
  by apply elem_of_nil in Hin.

(** C2 fails on the code: at an address whose asset anchor times out, and at
    one whose asset page never shows its collection link, the loop
    [continue]s past [finish]; when the batch is over the session made for
    that address is still open and was never asked to quit. *)
Theorem session_left_open_on_skip :
  let r := get_address_details (λ _, Sample.no_anchor) ["bad-collection"] (boot None None) in
  let r' := get_address_details (λ _, Sample.no_link) ["bad-collection"] (boot None None) in
  (result r = Ret tt ∧ sessions (after r) = [0] ∧ Ext (CallQuit 0) ∉ events r)
  ∧ (result r' = Ret tt ∧ sessions (after r') = [0] ∧ Ext (CallQuit 0) ∉ events r').
Proof.
  vm_compute. split; (split; [done |]; split; [done |]; intros Hin; not_among Hin).
Qed.








(** No exception ends a pass exactly when every call outside a [try]
    returns wherever it is reached. *)
Lemma unguarded_failure_None w address :
  unguarded_failure w address = None ↔ unguarded_calls_return w address = true.
Proof.
  unfold unguarded_failure, unguarded_calls_return, reaches_collection_page, anchor_resolves,
    reaches_asset_page, link_resolves, closes_quietly, handled_by_finish.
  destruct (choose_user_agent w); simpl; [| done].
  destruct (choose_proxy w); simpl; [| done].
  destruct (start_chrome w); simpl; [| done].
  destruct (load w (OPENSEA_HOME_URL +:+ address +:+ url_filter)); simpl; [| done].
  destruct (until_visible w CSS_SELECTOR sel_asset_anchor 10); simpl; [| done].
  destruct (element_href w CSS_SELECTOR sel_asset_anchor) as [asset_url|]; simpl; [| done].
  destruct (load w asset_url); simpl; [| done].
  destruct (until_visible w CSS_SELECTOR sel_collection_link 5); simpl; [| done].
  destruct (write_csv w); simpl; [| done].
  destruct (close_window w) as [|e]; simpl.
  - destruct (quit_chrome w) as [|e]; simpl; [done |]. by destruct (is_WebDriverException e).
  - rewrite andb_true_r. by destruct (is_WebDriverException e).
Qed.


(** ** The record writer *)

Lemma append_record_run w stats st :
  is_ok (write_csv w) = true ->
  result (append_record w stats st) = Ret tt
  ∧ file_settings (after (append_record w stats st)) = file_settings st
  ∧ file_valid (after (append_record w stats st)) =
      Some (match file_valid st with
            | None => [columns; row_of stats]
            | Some rows => rows ++ [row_of stats]
            end).
Proof.
  expose. destruct (write_csv w); [intros _ | done].
  destruct (file_valid st) as [rows|] eqn:E; simpl; by rewrite ?E.
Qed.

Lemma append_records_run jobs :
  ∀ st rows,
    forallb (λ job, is_ok (write_csv job.1)) jobs = true ->
    file_valid st = Some rows ->
    result (append_records jobs st) = Ret tt
    ∧ file_settings (after (append_records jobs st)) = file_settings st
    ∧ file_valid (after (append_records jobs st)) = Some (rows ++ map row_of (jobs.*2)).
Proof.
  induction jobs as [|[w stats] jobs IH]; intros st rows Hok Hrows; simpl.
  - by rewrite app_nil_r.
  - apply andb_true_iff in Hok as [Hw Hok].
    destruct (append_record_run w stats st Hw) as (Hres & Hset & Hfile).
    rewrite Hrows in Hfile.
    destruct (IH (after (append_record w stats st)) _ Hok Hfile) as (IHres & IHset & IHfile).
    unfold mbind, M_bind.
    destruct (append_record w stats st) as [res st' evs]; simpl in *. subst res.
    destruct (append_records jobs st') as [res' st'' evs']; simpl in *.
    split; [done |]. split; [congruence |]. by rewrite IHfile, <- app_assoc.
Qed.

(** C7. Against a store that does not exist, the first append creates it with
    the header row before the data row; an append against an existing store
    adds its one row at the end and leaves the rest alone; and two process
    runs, the first against a fresh store and the second against the store
    the first left, leave one header row followed by every record in call
    order. *)
Theorem record_store_one_header (first : World * Stats) (run1 run2 : list (World * Stats))
    (settings : option Settings) :
  forallb (λ job, is_ok (write_csv job.1)) (first :: run1 ++ run2) = true ->
  let st := boot settings None in
  let once := append_record first.1 first.2 st in
  let r1 := append_records (first :: run1) st in
  let r2 := append_records run2 (boot (file_settings (after r1)) (file_valid (after r1))) in
  file_valid (after once) = Some [columns; row_of first.2]
  ∧ (∀ w stats st' rows, is_ok (write_csv w) = true -> file_valid st' = Some rows ->
       file_valid (after (append_record w stats st')) = Some (rows ++ [row_of stats]))
  ∧ result r1 = Ret tt
  ∧ file_valid (after r1) = Some (columns :: map row_of (first.2 :: run1.*2))
  ∧ result r2 = Ret tt
  ∧ file_valid (after r2) = Some (columns :: map row_of (first.2 :: (run1 ++ run2).*2)).
Proof.
  destruct first as [w stats]. intros Hok. cbv zeta. cbn [fst snd]. simpl in Hok.
  apply andb_true_iff in Hok as [Hw Hok]. rewrite forallb_app in Hok.
  apply andb_true_iff in Hok as [Hok1 Hok2].
  destruct (append_record_run w stats (boot settings None) Hw) as (Hres & Hset & Hfile).
  simpl in Hfile.
  split; [exact Hfile |]. split.
  { intros w' stats' st' rows Hw' Hrows.
    destruct (append_record_run w' stats' st' Hw') as (_ & _ & H). by rewrite Hrows in H. }
  destruct (append_records_run run1 (after (append_record w stats (boot settings None))) _
              Hok1 Hfile) as (Hres1 & _ & Hfile1).
  assert (result (append_records ((w, stats) :: run1) (boot settings None)) = Ret tt
          ∧ file_valid (after (append_records ((w, stats) :: run1) (boot settings None)))
            = Some (columns :: row_of stats :: map row_of (run1.*2))) as [Hr1 Hf1].
  { simpl. unfold mbind, M_bind.
    destruct (append_record w stats (boot settings None)) as [res st' evs]; simpl in *.
    subst res. by destruct (append_records run1 st') as [res' st'' evs']. }
  split; [exact Hr1 |]. split; [exact Hf1 |].
  destruct (append_records_run run2
              (boot (file_settings (after (append_records ((w, stats) :: run1) (boot settings None))))
                 (file_valid (after (append_records ((w, stats) :: run1) (boot settings None)))))
              _ Hok2 Hf1) as (Hres2 & _ & Hfile2).
  split; [exact Hres2 |]. rewrite Hfile2. simpl. by rewrite fmap_app, map_app.
Qed.

Lemma record_store_one_header_witness :
  let punk := {| TodaysDate := "11-03-2026"; ScanAddress := "cryptopunks";
                 CollectionName := "CryptoPunks"; Collection := "Collection";
                 AssetNumber := "3100"; BestOffer := "0.5 ETH"; Premium := "Y" |} in
  let ape := {| TodaysDate := "11-04-2026"; ScanAddress := "boredapeyachtclub";
                CollectionName := "Bored Ape Yacht Club"; Collection := "";
                AssetNumber := "7495"; BestOffer := ""; Premium := "" |} in
  let st := boot None None in
  let once := append_record Sample.rendered punk st in
  let r1 := append_records [(Sample.rendered, punk)] st in
  let r2 := append_records [(Sample.no_offer, ape)]
              (boot (file_settings (after r1)) (file_valid (after r1))) in
  file_valid (after once) = Some [columns; row_of punk]
  ∧ (∀ w stats st' rows, is_ok (write_csv w) = true -> file_valid st' = Some rows ->
       file_valid (after (append_record w stats st')) = Some (rows ++ [row_of stats]))
  ∧ result r1 = Ret tt
  ∧ file_valid (after r1) = Some (columns :: map row_of [punk])
  ∧ result r2 = Ret tt
  ∧ file_valid (after r2) = Some (columns :: map row_of [punk; ape]).
Proof.
  intros punk ape.
  apply (record_store_one_header (Sample.rendered, punk) [] [(Sample.no_offer, ape)] None).
  reflexivity.
Defined.

(** ** Start-up *)

Lemma seed_has_Settings st :
  getitem seed_settings "Settings" st = ran (Ret {[ "ThreadsCount" := 5%Z ]}) st [].
Proof. unfold getitem, seed_settings. by rewrite lookup_singleton_eq. Qed.

Lemma seed_lacks_ThreadCount st :
  getitem ({[ "ThreadsCount" := 5%Z ]} : gmap string Z) "ThreadCount" st
  = ran (Raise (KeyError "ThreadCount")) st [].
Proof. unfold getitem. by rewrite lookup_singleton_ne. Qed.

(** C9. Started with no [Settings.json], or with the one [get_settings]
    seeds, the program dies in [main] with [KeyError('ThreadCount')] right
    after its launch line: the address file is not read, no session is made,
    no address is taken up, and [Valid.csv] is not touched. *)
Theorem seeded_settings_crash_main (o : Outside) (st : State) :
  file_settings st = None ∨ file_settings st = Some seed_settings ->
  let r := script o st in
  result r = Raise (KeyError "ThreadCount")
  ∧ events r = [Info MsgLaunched]
  ∧ after r = set_file_settings (Some seed_settings) st.
Proof.
  unfold script, main, get_settings, info, emit, modify, gets, raise,
    mbind, M_bind, mret, M_ret.
  intros [Hfile|Hfile]; simpl; rewrite Hfile; simpl;
    rewrite seed_has_Settings, seed_lacks_ThreadCount; simpl.
  - done.
  - unfold set_file_settings. rewrite <- Hfile. by destruct st.
Qed.

Lemma seeded_settings_crash_main_witness :
  let o := {| world := λ _, Sample.rendered; read_addresses := Returns ["cryptopunks"] |} in
  let r := script o (boot None None) in
  result r = Raise (KeyError "ThreadCount")
  ∧ events r = [Info MsgLaunched]
  ∧ after r = set_file_settings (Some seed_settings) (boot None None).
Proof. apply seeded_settings_crash_main. by left. Defined.

(** ** The wait *)

(** C10. [wait_until_visible] waits once, on the first of css_selector,
    element_id, name, class_name, tag_name that is supplied (not [None] and
    not empty), whatever the later ones are, and returns or raises as that
    wait does; with none supplied it returns at once, without a wait. *)
Theorem wait_on_first_supplied_locator w driver css_selector element_id name class_name tag_name
    duration st :
  wait_until_visible w driver css_selector element_id name class_name tag_name duration st =
  match first_supplied [(CSS_SELECTOR, css_selector); (ID, element_id); (NAME, name);
                        (CLASS_NAME, class_name); (TAG_NAME, tag_name)] with
  | Some (by_, value) =>
      ran (match until_visible w by_ value duration with
           | Returns _ => Ret tt
           | Raises e => Raise e
           end) st [Ext (CallWait driver by_ value duration)]
  | None => ran (Ret tt) st []
  end.
Proof.
  unfold wait_until_visible, WebDriverWait_until, ext, emit, lift, raise, mbind, M_bind,
    mret, M_ret.
  destruct css_selector as [[|? ?]|], element_id as [[|? ?]|], name as [[|? ?]|],
    class_name as [[|? ?]|], tag_name as [[|? ?]|]; simpl;
    try done;
    match goal with
    | |- context [until_visible w ?b ?v duration] =>
        by destruct (until_visible w b v duration) as [[]|]
    end.
Qed.

(** ** The resource files: facts *)

#[local] Arguments String.append : simpl nomatch.

Lemma lstrip_spec s :
  ∃ pre, s = pre +:+ lstrip s ∧ all_space pre
         ∧ ∀ a rest, lstrip s = String a rest -> isspace a = false.
Proof.
  induction s as [|b s (pre & Hs & Hpre & Hhead)]; simpl.
  - by exists EmptyString.
  - destruct (isspace b) eqn:Hb.
    + exists (String b pre). simpl. by rewrite <- Hs.
    + exists EmptyString. split; [done |]. split; [done |].
      intros a rest Heq. by injection Heq as <- _.
Qed.

Lemma rstrip_spec s :
  ∃ post, s = rstrip s +:+ post ∧ all_space post
          ∧ ∀ front a, rstrip s = front +:+ String a EmptyString -> isspace a = false.
Proof.
  induction s as [|b s (post & Hs & Hpost & Hlast)]; simpl.
  - exists EmptyString. split; [done |]. split; [done |]. intros front a Heq; by destruct front.
  - destruct (rstrip s) as [|c kept] eqn:Hkept.
    + destruct (isspace b) eqn:Hb.
      * exists (String b post). simpl in *. subst post.
        split; [done |]. split; [done |]. exact Hlast.
      * exists post. simpl in *. subst post. split; [done |]. split; [done |].
        intros front a Heq. destruct front as [|x [|y front]]; simpl in Heq; [| done | done].
        by injection Heq as <-.
    + exists post. simpl in *. rewrite <- Hs. split; [done |]. split; [done |].
      intros front a Heq. destruct front as [|x front]; simpl in Heq; [done |].
      injection Heq as _ Heq. by apply (Hlast front).
Qed.

Lemma rstrip_head a s :
  isspace a = false -> ∃ rest, rstrip (String a s) = String a rest.
Proof. intros Ha. simpl. rewrite Ha. destruct (rstrip s); eauto. Qed.

Lemma strip_spec s :
  trimmed (strip s)
  ∧ ∃ pre post, s = pre +:+ strip s +:+ post ∧ all_space pre ∧ all_space post.
Proof.
  unfold strip, trimmed.
  destruct (lstrip_spec s) as (pre & Hs & Hpre & Hhead).
  destruct (rstrip_spec (lstrip s)) as (post & Hl & Hpost & Hlast).
  split; [split |].
  - intros a rest Heq. destruct (lstrip s) as [|b l] eqn:El; [done |].
    pose proof (Hhead b l eq_refl) as Hb.
    destruct (rstrip_head b l Hb) as [rest' Hr]. rewrite Hr in Heq.
    by injection Heq as <- _.
  - exact Hlast.
  - exists pre, post. by rewrite <- Hl.
Qed.

#[local] Arguments String.append : simpl never.

(** X15. The line [get_user_agent] and [get_proxy] return. From a file with
    at least one line, the choice returns some line of the file with the
    white space at its two ends removed and nothing else changed. *)
Theorem choose_line_returns_stripped_line (content : list string) (pick : nat) :
  content ≠ [] ->
  ∃ line, line ∈ content
          ∧ choose_line (Returns content) pick = Returns (strip line)
          ∧ trimmed (strip line)
          ∧ ∃ pre post, line = pre +:+ strip line +:+ post ∧ all_space pre ∧ all_space post.
Proof.
  intros Hne. unfold choose_line, choice.
  assert (pick mod length (strip <$> content) < length content) as Hlt.
  { rewrite length_fmap. apply Nat.mod_upper_bound. by destruct content. }
  destruct (lookup_lt_is_Some_2 content _ Hlt) as [line Hline].
  exists line. split; [by eapply list_elem_of_lookup_2 |].
  split; [| apply strip_spec].
  destruct content as [|first content]; [done |].
  change (strip <$> first :: content) with (strip first :: (strip <$> content)) at 1.
  cbv iota. by rewrite list_lookup_fmap, Hline.
Qed.

Lemma choose_line_returns_stripped_line_witness :
  ∃ line, line ∈ ["Mozilla/5.0 (X11; Linux x86_64)" +:+ String (Ascii.ascii_of_nat 10) ""]
          ∧ choose_line
              (Returns ["Mozilla/5.0 (X11; Linux x86_64)" +:+ String (Ascii.ascii_of_nat 10) ""]) 7
            = Returns (strip line)
          ∧ trimmed (strip line)
          ∧ ∃ pre post, line = pre +:+ strip line +:+ post ∧ all_space pre ∧ all_space post.
Proof. apply choose_line_returns_stripped_line. discriminate. Defined.

Example strip_line :
  strip ("  10.0.0.1:3128 " +:+ String (Ascii.ascii_of_nat 13) (String (Ascii.ascii_of_nat 10) ""))
  = "10.0.0.1:3128".
Proof. reflexivity. Qed.

(** ** Every pass, whatever the world answers *)

(** Rewrites with what the three best-effort reads answered. *)
Ltac reads_known :=
  repeat match goal with
         | H : element_text _ _ sel_collection_link = _ |- _ => rewrite H; clear H
         | H : element_text _ _ sel_collection_label = _ |- _ => rewrite H; clear H
         | H : element_text _ _ sel_best_offer = _ |- _ => rewrite H; clear H
         end.

(** A pass hands [to_csv] nothing, or one record with its fields as read. *)
Lemma pass_record w i address st :
  csv_calls (events (loop_body w i address st)) = []
  ∨ ∃ stats, csv_calls (events (loop_body w i address st)) = [stats]
             ∧ fields_as_read w address stats.
Proof.
  expose. walk w address; walk_end w st;
    first [ by left
          | right; eexists; split; [reflexivity |];
            unfold fields_as_read; reads_known; by simpl ].
Qed.

(** ** A pass on any cell *)

(** X7. An exception leaves one pass of the loop only from a call that
    stands outside every [try]: choosing the user agent or the proxy,
    starting Chrome, the concatenation on line 206 when the cell is not a
    [str] ([TypeError]), the two [driver.get], reading the anchor's [href],
    [to_csv], or [finish] when it is not a [WebDriverException]; what the
    six guarded blocks raise never does. *)
Theorem pass_raises_only_outside_try w i cell st e :
  result (loop_body_cell w i cell st) = Raise e -> raised_outside_try_cell w cell e.
Proof.
  destruct cell as [address|]; simpl.
  - expose. walk w address; walk_end w st;
      (let H := fresh in intros H; injection H as <-; unfold raised_outside_try; eauto 12).
  - unfold get_driver, get_user_agent, get_proxy, ext, info, emit, lift, raise,
      modify, gets, mbind, M_bind, mret, M_ret.
    destruct (choose_user_agent w) eqn:?; simpl; [| intros [= <-]; eauto].
    destruct (choose_proxy w) eqn:?; simpl; [| intros [= <-]; eauto].
    destruct (start_chrome w) eqn:?; simpl; intros [= <-]; eauto 6.
Qed.

Lemma pass_raises_only_outside_try_witness :
  raised_outside_try_cell Sample.rendered CellNumber TypeError.
Proof.
  apply (pass_raises_only_outside_try Sample.rendered 0 CellNumber (boot None None)).
  reflexivity.
Defined.

(** A number in the [Address] column: the session is made, line 206 raises
    [TypeError], and the session is left open. *)
Example number_cell_raises_TypeError :
  let r := loop_body_cell Sample.rendered 0 CellNumber (boot None None) in
  result r = Raise TypeError ∧ sessions (after r) = [0].
Proof. by split. Qed.

(** X13. Every record a pass writes carries the run's date stamp and the
    address, and each best-effort field holds the text that was read for it,
    or nothing when that one read raised, whatever the other reads did. *)
Theorem record_fields_as_read w i address st stats :
  stats ∈ csv_calls (events (loop_body w i address st)) ->
  fields_as_read w address stats.
Proof.
  destruct (pass_record w i address st) as [Hnone|(only & Hone & Hfields)].
  - rewrite Hnone. by intros Hin%elem_of_nil.
  - rewrite Hone. by intros ->%list_elem_of_singleton.
Qed.

Lemma record_fields_as_read_witness :
  fields_as_read Sample.no_offer "cryptopunks"
    {| TodaysDate := "11-03-2026"; ScanAddress := "cryptopunks";
       CollectionName := "CryptoPunks"; Collection := "Collection";
       AssetNumber := "3100"; BestOffer := ""; Premium := "Y" |}.
Proof.
  apply (record_fields_as_read Sample.no_offer 0 "cryptopunks" (boot None None)).
  vm_compute. left.
Defined.

Lemma remove_char_free c s : PyStr.free_of c (PyStr.remove_char c s).
Proof.
  induction s as [|a s IH]; simpl; [done |].
  destruct (Ascii.eqb_spec a c); [done |]. by split.
Qed.

(** X14. The [Collection] field of a record a pass writes holds no double
    quote. *)
Theorem collection_has_no_quote w i address st stats :
  stats ∈ csv_calls (events (loop_body w i address st)) ->
  PyStr.free_of dquote (Collection stats).
Proof.
  destruct (pass_record w i address st) as [Hnone|(only & Hone & Hfields)].
  - rewrite Hnone. by intros Hin%elem_of_nil.
  - rewrite Hone. intros ->%list_elem_of_singleton.
    destruct Hfields as (_ & _ & _ & -> & _). apply remove_char_free.
Qed.

Lemma collection_has_no_quote_witness :
  PyStr.free_of dquote
    (Collection {| TodaysDate := "11-03-2026"; ScanAddress := "cryptopunks";
                   CollectionName := "CryptoPunks"; Collection := "Collection";
                   AssetNumber := "3100"; BestOffer := "0.5 ETH"; Premium := "Y" |}).
Proof.
  apply (collection_has_no_quote Sample.rendered 0 "cryptopunks" (boot None None)).
  vm_compute. left.
Defined.

(** ** Every batch, whatever the world answers *)

Lemma csv_calls_app evs evs' : csv_calls (evs ++ evs') = csv_calls evs ++ csv_calls evs'.
Proof.
  induction evs as [|[m|c] evs IH]; simpl; [done | done |].
  destruct c; simpl; by rewrite ?IH.
Qed.

Lemma store_with_app old records records' :
  store_with (store_with old records) records' = store_with old (records ++ records').
Proof.
  destruct records as [|r records]; [done |].
  destruct records' as [|r' records']; [by rewrite app_nil_r |].
  destruct old as [rows|]; simpl; rewrite map_app; simpl; by rewrite <- ?app_assoc.
Qed.


(** X8. The records a batch hands to [to_csv] follow the order of the input
    and there is at most one per address: their [ScanAddress] column is the
    address list with some addresses left out. *)
Theorem rows_follow_input_order world addresses st :
  (ScanAddress <$> csv_calls (events (get_address_details world addresses st)))
    `sublist_of` addresses.
Proof.
  unfold get_address_details. generalize 0 as i. revert st.
  induction addresses as [|address rest IH]; intros st i; simpl; [done |].
  pose proof (pass_record (world i) i address st) as Hpass.
  destruct (loop_body (world i) i address st) as [res st' evs]; simpl in Hpass.
  assert ((ScanAddress <$> csv_calls evs) = [] ∨ (ScanAddress <$> csv_calls evs) = [address])
    as Hhere.
  { destruct Hpass as [->|(stats & -> & _ & <- & _)]; [by left | by right]. }
  specialize (IH st' (S i)).
  destruct (get_address_details_from world (S i) rest st') as [res' st'' evs'].
  simpl in IH.
  assert ((ScanAddress <$> csv_calls (evs ++ evs')) `sublist_of` address :: rest) as Hall.
  { rewrite csv_calls_app, fmap_app.
    destruct Hhere as [->| ->]; simpl; [by apply sublist_cons | by apply sublist_skip]. }
  destruct res as [[]| |e]; simpl; [done | done |].
  destruct Hhere as [->| ->]; [apply sublist_nil_l |].
  apply sublist_skip, sublist_nil_l.
Qed.

(** ** The store over successive runs *)

(** Rewrites with what is known of [Valid.csv] before the pass. *)
Ltac store_known :=
  simpl;
  repeat match goal with
         | H : file_valid _ = _ |- _ => rewrite !H
         end;
  simpl.

(** Closes the facts of [pass_store] at the end of a walk. *)
Ltac settle :=
  split; [done |];
  split;
  [ let Hq := fresh in intros Hq; first [ by destruct (Hq _ eq_refl) | done ]
  | done ].

(** What a pass does to the two files: the settings are left alone, and
    [Valid.csv] gains the record handed to [to_csv], if any, whenever the
    pass raises nothing or [to_csv] goes through. *)
Lemma pass_store w i address st :
  match loop_body w i address st with
  | ran res st' evs =>
      file_settings st' = file_settings st
      ∧ ((∀ e, res ≠ Raise e) ->
         file_valid st' = store_with (file_valid st) (csv_calls evs))
      ∧ (is_ok (write_csv w) = true ->
         file_valid st' = store_with (file_valid st) (csv_calls evs))
  end.
Proof.
  expose. walk w address; walk_end w st; store_known; settle.
Qed.

Lemma batch_store world addresses :
  ∀ i st,
    match get_address_details_from world i addresses st with
    | ran res st' evs =>
        file_settings st' = file_settings st
        ∧ (res = Ret tt -> file_valid st' = store_with (file_valid st) (csv_calls evs))
        ∧ ((∀ j, is_ok (write_csv (world j)) = true) ->
           file_valid st' = store_with (file_valid st) (csv_calls evs))
    end.
Proof.
  induction addresses as [|address rest IH]; intros i st; simpl; [done |].
  pose proof (pass_store (world i) i address st) as Hpass.
  destruct (loop_body (world i) i address st) as [res st' evs].
  destruct Hpass as (Hset & Hquiet & Hwrite).
  specialize (IH (S i) st').
  destruct (get_address_details_from world (S i) rest st') as [res' st'' evs'].
  destruct IH as (IHset & IHquiet & IHwrite).
  assert ((∀ j, is_ok (write_csv (world j)) = true) ->
          file_valid st'' = store_with (file_valid st) (csv_calls (evs ++ evs'))) as Hall.
  { intros Hok. by rewrite csv_calls_app, <- store_with_app, <- (Hwrite (Hok i)), (IHwrite Hok). }
  assert (res' = Ret tt -> (∀ e, res ≠ Raise e) ->
          file_valid st'' = store_with (file_valid st) (csv_calls (evs ++ evs'))) as Hend.
  { intros Hres Hq. by rewrite csv_calls_app, <- store_with_app, <- (Hquiet Hq), (IHquiet Hres). }
  destruct res as [[]| |e]; simpl.
  - split; [congruence |]. split; [| done]. intros Hres. by apply Hend.
  - split; [congruence |]. split; [| done]. intros Hres. by apply Hend.
  - split; [done |]. split; [done |]. intros Hok. by apply Hwrite.
Qed.



(** X10. Starting with no [Valid.csv], when two successive runs both end
    normally, the file after each is the header followed by one row for
    every record handed to [to_csv] so far, in call order (and stays absent
    as long as there is none). *)
Theorem store_holds_every_record world addresses world' addresses' (settings : option Settings) :
  let r := get_address_details world addresses (boot settings None) in
  let r' := get_address_details world' addresses'
              (boot (file_settings (after r)) (file_valid (after r))) in
  result r = Ret tt -> result r' = Ret tt ->
  file_valid (after r) = store_with None (csv_calls (events r))
  ∧ file_valid (after r') = store_with None (csv_calls (events r) ++ csv_calls (events r')).
Proof.
  unfold get_address_details.
  pose proof (batch_store world addresses 0 (boot settings None)) as H1.
  destruct (get_address_details_from world 0 addresses (boot settings None)) as [res st1 evs].
  simpl in *. destruct H1 as (_ & Hfile & _).
  pose proof (batch_store world' addresses' 0 (boot (file_settings st1) (file_valid st1))) as H2.
  destruct (get_address_details_from world' 0 addresses'
              (boot (file_settings st1) (file_valid st1))) as [res' st2 evs'].
  simpl in *. destruct H2 as (_ & Hfile' & _).
  intros Hres Hres'. specialize (Hfile Hres). specialize (Hfile' Hres').
  split; [done |]. by rewrite Hfile', Hfile, store_with_app.
Qed.

Lemma store_holds_every_record_witness :
  let r := get_address_details Sample.second_has_no_anchor ["cryptopunks"; "bad-collection"]
             (boot None None) in
  let r' := get_address_details (λ _, Sample.no_offer) ["azuki"]
              (boot (file_settings (after r)) (file_valid (after r))) in
  file_valid (after r) = store_with None (csv_calls (events r))
  ∧ file_valid (after r') = store_with None (csv_calls (events r) ++ csv_calls (events r')).
Proof.
  apply (store_holds_every_record Sample.second_has_no_anchor ["cryptopunks"; "bad-collection"]
           (λ _, Sample.no_offer) ["azuki"] None); reflexivity.
Defined.

(** ** One session per address *)

(** What a pass does with Chrome: it starts it at most once, exactly once
    when it raises nothing, and every call it makes on a driver is made on
    the handle its own start returned. *)
Lemma pass_sessions w i address st :
  match loop_body w i address st with
  | ran res st' evs =>
      (chrome_starts evs ≤ 1)%nat
      ∧ Forall (λ d, d = started st) (driver_calls evs)
      ∧ (driver_calls evs ≠ [] -> chrome_starts evs = 1)
      ∧ ((∀ e, res ≠ Raise e) -> chrome_starts evs = 1 ∧ started st' = S (started st))
  end.
Proof.
  expose. walk w address; walk_end w st;
    (split; [by repeat constructor |];
     split; [by repeat constructor |];
     split; [by intros ? |];
     let Hq := fresh in intros Hq; first [ by destruct (Hq _ eq_refl) | done ]).
Qed.

(** The batch from index [i] on, pass by pass. *)
Lemma batch_sessions world addresses :
  ∀ i st,
    let r := get_address_details_from world i addresses st in
    ∃ passes : list (list Event),
      events r = concat passes
      ∧ (length passes ≤ length addresses)%nat
      ∧ (result r = Ret tt -> length passes = length addresses)
      ∧ ∀ k evs, passes !! k = Some evs ->
          (chrome_starts evs ≤ 1)%nat
          ∧ Forall (λ d, d = (started st + k)%nat) (driver_calls evs)
          ∧ (driver_calls evs ≠ [] -> chrome_starts evs = 1)
          ∧ ((S k < length passes)%nat ∨ result r = Ret tt -> chrome_starts evs = 1).
Proof.
  induction addresses as [|address rest IH]; intros i st; simpl.
  - exists []. split; [done |]. split; [done |]. split; [done |]. by intros k evs.
  - pose proof (pass_sessions (world i) i address st) as Hpass.
    destruct (loop_body (world i) i address st) as [res st' evs].
    destruct Hpass as (Hmost & Hmine & Hstarted & Hquiet).
    specialize (IH (S i) st').
    destruct (get_address_details_from world (S i) rest st') as [res' st'' evs'].
    simpl in IH. destruct IH as (passes & Hevs & Hlen & Hall & Hpasses).
    assert ((∀ e, res ≠ Raise e) ->
      ∃ passes0 : list (list Event),
        evs ++ evs' = concat passes0
        ∧ (length passes0 ≤ S (length rest))%nat
        ∧ (res' = Ret tt -> length passes0 = S (length rest))
        ∧ ∀ k pevs, passes0 !! k = Some pevs ->
            (chrome_starts pevs ≤ 1)%nat
            ∧ Forall (λ d, d = (started st + k)%nat) (driver_calls pevs)
            ∧ (driver_calls pevs ≠ [] -> chrome_starts pevs = 1)
            ∧ ((S k < length passes0)%nat ∨ res' = Ret tt -> chrome_starts pevs = 1)) as Hgo.
    { intros Hq. destruct (Hquiet Hq) as [Hone Hnext].
      exists (evs :: passes). simpl. split; [by rewrite Hevs |]. split; [lia |].
      split; [intros Hres; by rewrite Hall |].
      intros [|k] pevs Hlook; simpl in Hlook.
      - injection Hlook as <-. rewrite Nat.add_0_r. done.
      - destruct (Hpasses k pevs Hlook) as (H1 & H2 & H3 & H4).
        split; [done |]. split.
        + eapply Forall_impl; [exact H2 |]. simpl. intros d ->. lia.
        + split; [done |]. intros [Hlt|Hres]; apply H4; [left; lia | by right]. }
    destruct res as [[]| |e]; simpl; [by apply Hgo | by apply Hgo |].
    exists [evs]. simpl. split; [by rewrite app_nil_r |]. split; [lia |]. split; [done |].
    intros [|k] pevs Hlook; simpl in Hlook; [| done].
    injection Hlook as <-. rewrite Nat.add_0_r.
    split; [done |]. split; [done |]. split; [done |]. intros [Hlt|Hres]; [lia | done].
Qed.

(** X11. The events of a batch split into one run of events per address
    taken up, in order. Each such pass starts Chrome at most once, exactly
    once unless it is the pass an exception ended, and every call it makes
    on a driver ([get], the waits and lookups, [close], [quit]) goes to the
    handle numbered by its own position, the one its own start returned: no
    pass uses the session of another address. *)
Theorem one_chrome_per_address world addresses st :
  let r := get_address_details world addresses st in
  ∃ passes : list (list Event),
    events r = concat passes
    ∧ (length passes ≤ length addresses)%nat
    ∧ (result r = Ret tt -> length passes = length addresses)
    ∧ ∀ k evs, passes !! k = Some evs ->
        (chrome_starts evs ≤ 1)%nat
        ∧ Forall (λ d, d = (started st + k)%nat) (driver_calls evs)
        ∧ (driver_calls evs ≠ [] -> chrome_starts evs = 1)
        ∧ ((S k < length passes)%nat ∨ result r = Ret tt -> chrome_starts evs = 1).
Proof. apply (batch_sessions world addresses 0 st). Qed.

Lemma one_chrome_per_address_witness :
  let r := get_address_details Sample.second_has_no_anchor ["cryptopunks"; "bad-collection"]
             (boot None None) in
  ∃ passes : list (list Event),
    events r = concat passes
    ∧ (length passes ≤ 2)%nat
    ∧ (result r = Ret tt -> length passes = 2)
    ∧ ∀ k evs, passes !! k = Some evs ->
        (chrome_starts evs ≤ 1)%nat
        ∧ Forall (λ d, d = (0 + k)%nat) (driver_calls evs)
        ∧ (driver_calls evs ≠ [] -> chrome_starts evs = 1)
        ∧ ((S k < length passes)%nat ∨ result r = Ret tt -> chrome_starts evs = 1).
Proof.
  exact (one_chrome_per_address Sample.second_has_no_anchor ["cryptopunks"; "bad-collection"]
           (boot None None)).
Defined.

(** ** Sessions *)

(** A pass that runs to its last line quits the session it made. *)
Lemma complete_pass w i address st :
  runs_to_the_end w address = true ->
  match loop_body w i address st with
  | ran res st' evs =>
      res = Ret tt ∧ started st' = S (started st)
      ∧ sessions st' = filter (λ d, d ≠ started st) (sessions st ++ [started st])
  end.
Proof.
  unfold runs_to_the_end, both_anchors_resolve, reaches_collection_page, anchor_resolves,
    reaches_asset_page, link_resolves.
  expose. walk w address; walk_end w st.
Qed.

Lemma filter_out_fresh (l : list nat) (n : nat) :
  Forall (λ d, d < n) l -> filter (λ d, d ≠ n) (l ++ [n]) = l.
Proof.
  intros Hl. rewrite filter_app.
  rewrite (filter_cons_False (λ d, d ≠ n) n []) by (intros H; by apply H).
  rewrite filter_nil, app_nil_r.
  induction Hl as [|d l Hd Hl IH]; [done |].
  rewrite filter_cons_True by lia. by rewrite IH.
Qed.

(** X12. When every pass of a batch runs to its last line and [close] and
    [quit] return, the batch ends normally with exactly the sessions open
    that were open before it: each pass quits the session it made. *)
Theorem complete_passes_leave_no_session world addresses st :
  (∀ i address, addresses !! i = Some address -> runs_to_the_end (world i) address = true) ->
  sessions_fresh st ->
  let r := get_address_details world addresses st in
  result r = Ret tt ∧ sessions (after r) = sessions st ∧ sessions_fresh (after r).
Proof.
  unfold get_address_details.
  assert (∀ k st,
    (∀ i address, addresses !! i = Some address ->
       runs_to_the_end (world (k + i)) address = true) ->
    sessions_fresh st ->
    let r := get_address_details_from world k addresses st in
    result r = Ret tt ∧ sessions (after r) = sessions st ∧ sessions_fresh (after r)) as Hgen.
  { clear st. induction addresses as [|address rest IH]; intros k st Hend Hfresh; simpl; [done |].
    assert (runs_to_the_end (world k) address = true) as Hk.
    { specialize (Hend 0 address eq_refl). by rewrite Nat.add_0_r in Hend. }
    pose proof (complete_pass (world k) k address st Hk) as Hpass.
    destruct (loop_body (world k) k address st) as [res st' evs].
    destruct Hpass as (-> & Hstarted & Hsessions).
    destruct Hfresh as [Hnodup Hbelow].
    assert (sessions st' = sessions st) as Hsame
      by (rewrite Hsessions; by apply filter_out_fresh).
    clear Hsessions.
    assert (sessions_fresh st') as Hfresh'.
    { split; rewrite Hsame, ?Hstarted; [done |].
      eapply Forall_impl; [exact Hbelow |]. simpl. lia. }
    destruct (IH (S k) st') as (IHres & IHsessions & IHfresh); [| done |].
    { intros i a Hlook. rewrite Nat.add_succ_l, <- Nat.add_succ_r. by apply Hend. }
    destruct (get_address_details_from world (S k) rest st') as [res' st'' evs'].
    simpl in *. split; [done |]. split; [congruence | done]. }
  intros Hend Hfresh. by apply (Hgen 0 st).
Qed.

Lemma complete_passes_leave_no_session_witness :
  let r := get_address_details (λ _, Sample.rendered) ["cryptopunks"; "azuki"] (boot None None) in
  result r = Ret tt ∧ sessions (after r) = [] ∧ sessions_fresh (after r).
Proof.
  apply (complete_passes_leave_no_session (λ _, Sample.rendered) ["cryptopunks"; "azuki"]
           (boot None None)).
  - intros i address _. reflexivity.
  - split; [apply NoDup_nil_2 | apply Forall_nil_2].
Defined.



(** X5. When [driver.close()] raises, [driver.quit()] is never called and
    the session stays open; [finish] returns normally if the exception is a
    [WebDriverException] and raises it otherwise. *)
Theorem finish_close_failure_skips_quit w driver st e :
  close_window w = Raises e ->
  (Ext (CallQuit driver) ∉ events (finish w driver st))
  ∧ after (finish w driver st) = st
  ∧ result (finish w driver st) = if is_WebDriverException e then Ret tt else Raise e.
Proof.
  unfold finish, ext, info, emit, lift, try_except, modify, raise, mbind, M_bind, mret, M_ret.
  intros ->. simpl. destruct (is_WebDriverException e); simpl.
  all: split; [| done].
  all: intros Hin; repeat (apply elem_of_cons in Hin as [Hin|Hin]; [discriminate Hin |]).
  all: by apply elem_of_nil in Hin.
Qed.

(** A world in which the browser window cannot be closed. *)
Lemma finish_close_failure_skips_quit_witness :
  let w := {| choose_user_agent := Returns "Mozilla/5.0"; choose_proxy := Returns "10.0.0.1:3128";
              start_chrome := Returns tt; load := λ _, Returns tt;
              until_visible := λ _ _ _, Returns tt;
              element_text := λ _ _, Raises NoSuchElementException;
              element_href := λ _ _, Raises NoSuchElementException;
              strftime_now := "11-03-2026"; write_csv := Returns tt;
              close_window := Raises WebDriverException; quit_chrome := Returns tt |} in
  let st := open_session (boot None None) in
  (Ext (CallQuit 0) ∉ events (finish w 0 st))
  ∧ after (finish w 0 st) = st
  ∧ result (finish w 0 st) = Ret tt.
Proof.
  intros w st. apply (finish_close_failure_skips_quit w 0 st WebDriverException). reflexivity.
Defined.

(** X6. Called without a proxy, [get_driver] does not touch the proxy list:
    two worlds that agree on the user agent and on Chrome give the same
    run, whatever their proxy lists hold. *)
Theorem get_driver_without_proxy_ignores_proxies w w' headless st :
  choose_user_agent w = choose_user_agent w' ->
  start_chrome w = start_chrome w' ->
  get_driver w false headless st = get_driver w' false headless st.
Proof.
  unfold get_driver, get_user_agent. by intros -> ->.
Qed.

Lemma get_driver_without_proxy_ignores_proxies_witness :
  get_driver Sample.rendered false true (boot None None)
  = get_driver (with_resource_files (Returns ["Mozilla/5.0"]) (Returns []) 0) false true
      (boot None None).
Proof. apply get_driver_without_proxy_ignores_proxies; reflexivity. Defined.

(** X16. With an empty [user_agents.txt], or with a user agent chosen and an
    empty [proxies.txt], the batch dies on [IndexError] at its first
    address: Chrome is not started, nothing is logged, no state changes and
    no later address is taken up. *)
Theorem empty_resource_file_stops_batch world address rest st pick :
  choose_user_agent (world 0) = choose_line (Returns []) pick
  ∨ (is_ok (choose_user_agent (world 0)) = true
     ∧ choose_proxy (world 0) = choose_line (Returns []) pick) ->
  get_address_details world (address :: rest) st = ran (Raise IndexError) st [].
Proof.
  unfold get_address_details. simpl. expose.
  intros [Hua|[Hua Hproxy]].
  - by rewrite Hua.
  - destruct (choose_user_agent (world 0)); [| done]. simpl. by rewrite Hproxy.
Qed.

Lemma empty_resource_file_stops_batch_witness :
  get_address_details (λ _, with_resource_files (Returns ["Mozilla/5.0"]) (Returns []) 3)
    ["cryptopunks"; "azuki"] (boot None None)
  = ran (Raise IndexError) (boot None None) [].
Proof.
  apply (empty_resource_file_stops_batch _ "cryptopunks" ["azuki"] (boot None None) 3).
  right. split; reflexivity.
Defined.

(** ** Settings and start-up, further *)

(** ** Settings on a disk that may refuse *)

(** On a disk that answers, [get_settings_io] is [get_settings]. *)
Lemma get_settings_io_answers io st :
  is_ok (load_existing io) && is_ok (dump_seed io) && is_ok (load_seeded io) = true ->
  get_settings_io io st = get_settings st.
Proof.
  unfold get_settings_io, get_settings, lift, modify, gets, raise, mbind, M_bind, mret, M_ret.
  by destruct (load_existing io), (dump_seed io), (load_seeded io).
Qed.



Lemma main_with_keys (o : Outside) (settings : Settings) (section : gmap string Z) (n : Z) st :
  settings !! "Settings" = Some section ->
  section !! "ThreadCount" = Some n ->
  main o settings st
  = (info MsgLaunched;;
     addresses ← ext CallReadCsv (read_addresses o);
     get_address_details (world o) addresses) st.
Proof.
  intros Hsection Hcount.
  unfold main, getitem, info, emit, mbind, M_bind, mret, M_ret. simpl.
  rewrite Hsection. simpl. rewrite Hcount. simpl.
  destruct (ext CallReadCsv (read_addresses o) st) as [[addresses| |e] st' evs]; [| done | done].
  by destruct (get_address_details (world o) addresses st').
Qed.

(** X2. The thread count is read and then ignored: two settings that both
    hold ["Settings"]["ThreadCount"], with any values, give the same run of
    [main]. *)
Theorem main_ignores_thread_count (o : Outside) (settings settings' : Settings)
    (section section' : gmap string Z) (n n' : Z) st :
  settings !! "Settings" = Some section -> section !! "ThreadCount" = Some n ->
  settings' !! "Settings" = Some section' -> section' !! "ThreadCount" = Some n' ->
  main o settings st = main o settings' st.
Proof.
  intros Hs Hn Hs' Hn'.
  by rewrite (main_with_keys o settings section n st Hs Hn),
             (main_with_keys o settings' section' n' st Hs' Hn').
Qed.

Lemma main_ignores_thread_count_witness :
  let o := {| world := λ _, Sample.rendered; read_addresses := Returns ["cryptopunks"] |} in
  main o {[ "Settings" := {[ "ThreadCount" := 5%Z ]} ]} (boot None None)
  = main o {[ "Settings" := {[ "ThreadCount" := 1%Z; "ThreadsCount" := 9%Z ]} ]} (boot None None).
Proof.
  intros o.
  apply (main_ignores_thread_count o _ _ {[ "ThreadCount" := 5%Z ]}
           {[ "ThreadCount" := 1%Z; "ThreadsCount" := 9%Z ]} 5 1).
  - apply lookup_singleton_eq.
  - apply lookup_singleton_eq.
  - apply lookup_singleton_eq.
  - apply lookup_insert_eq.
Defined.

(** X3. When both settings keys are there and the address file cannot be
    read, [main] raises what the read raised, after its launch line and the
    read: no session is made and no state changes. *)
Theorem main_unreadable_addresses (o : Outside) (settings : Settings)
    (section : gmap string Z) (n : Z) st e :
  settings !! "Settings" = Some section -> section !! "ThreadCount" = Some n ->
  read_addresses o = Raises e ->
  main o settings st = ran (Raise e) st [Info MsgLaunched; Ext CallReadCsv].
Proof.
  intros Hs Hn Hread. rewrite (main_with_keys o settings section n st Hs Hn).
  unfold ext, info, emit, lift, raise, mbind, M_bind, mret, M_ret. by rewrite Hread.
Qed.

Lemma main_unreadable_addresses_witness :
  main {| world := λ _, Sample.rendered; read_addresses := Raises OSError |}
    {[ "Settings" := {[ "ThreadCount" := 5%Z ]} ]} (boot None None)
  = ran (Raise OSError) (boot None None) [Info MsgLaunched; Ext CallReadCsv].
Proof.
  apply (main_unreadable_addresses _ _ {[ "ThreadCount" := 5%Z ]} 5).
  - apply lookup_singleton_eq.
  - apply lookup_singleton_eq.
  - reflexivity.
Defined.

(** X17. With a [Settings.json] on disk that holds
    ["Settings"]["ThreadCount"], the whole program is the launch line, the
    read of the address file and the batch over what was read; the settings
    file is not rewritten. *)
Theorem script_runs_with_ThreadCount (o : Outside) (settings : Settings)
    (section : gmap string Z) (n : Z) st :
  file_settings st = Some settings ->
  settings !! "Settings" = Some section -> section !! "ThreadCount" = Some n ->
  script o st
  = (info MsgLaunched;;
     addresses ← ext CallReadCsv (read_addresses o);
     get_address_details (world o) addresses) st.
Proof.
  intros Hfile Hs Hn. rewrite <- (main_with_keys o settings section n st Hs Hn).
  unfold script, get_settings, gets, mbind, M_bind, mret, M_ret. simpl. rewrite Hfile.
  by destruct (main o settings st).
Qed.

Lemma script_runs_with_ThreadCount_witness :
  let o := {| world := Sample.second_has_no_anchor;
              read_addresses := Returns ["cryptopunks"; "bad-collection"] |} in
  let st := boot (Some {[ "Settings" := {[ "ThreadCount" := 5%Z ]} ]}) None in
  script o st
  = (info MsgLaunched;;
     addresses ← ext CallReadCsv (read_addresses o);
     get_address_details (world o) addresses) st.
Proof.
  intros o st.
  apply (script_runs_with_ThreadCount o {[ "Settings" := {[ "ThreadCount" := 5%Z ]} ]}
           {[ "ThreadCount" := 5%Z ]} 5 st).
  - reflexivity.
  - apply lookup_singleton_eq.
  - apply lookup_singleton_eq.
Defined.
